(** * boolean-evaluator: a ground evaluator and a tableau SAT solver

    A shallow embedding of [boolean_evaluator.py] and [sat_solver.py].
    Each Python module becomes a Rocq module of the same name.

    - [boolean_evaluator.eval_expr] is a pure tree walk; its results are
      Python values ([True], [False] or the implicit [None]).
    - [sat_solver] keeps Python's object heap explicit: an [ImmutableMap]
      wraps a reference to a [dict] object, [add] copies that dict and
      writes into the copy.  Calls run in a state-and-exception monad
      over the heap; [get] on a missing key raises [KeyError].  The
      recursion of [solve] is bounded by a depth budget that plays the
      interpreter's recursion limit. *)

From stdpp Require Import gmap strings list fin_maps.

(* ===================================================================== *)
(** ** boolean_evaluator.py *)
(* ===================================================================== *)

Module boolean_evaluator.

(** e ::= True | False | And(e1, e2) | Or(e1, e2) *)
Inductive Expression : Type :=
  | Const (b : bool)
  | And (left right : Expression)
  | Or (left right : Expression).

(** What a call of [eval_expr] can hand back: a Python Boolean, or [None]
    when control reaches the end of the function body. *)
Inductive value : Type :=
  | VBool (b : bool)
  | VNone.

(** Python's [==] on these values: [None] equals only [None]. *)
Definition py_eq (v w : value) : bool :=
  match v, w with
  | VBool a, VBool b => Bool.eqb a b
  | VNone, VNone => true
  | _, _ => false
  end.

(** Truthiness as used by [if not eval_expr(test)] in [run_tests]. *)
Definition truthy (v : value) : bool :=
  match v with
  | VBool b => b
  | VNone => false
  end.

Fixpoint eval_expr (expression : Expression) : value :=
  match expression with
  | Const true => VBool true
  | Const false => VBool false
  | And l r =>
      if py_eq (eval_expr l) (VBool true) then eval_expr r
      else VNone (* no [else] branch: the body ends, Python returns None *)
  | Or l r =>
      if py_eq (eval_expr l) (VBool false) then eval_expr r
      else VBool true
  end.

(** The textbook meaning of a ground expression. *)
Fixpoint denote (e : Expression) : bool :=
  match e with
  | Const b => b
  | And l r => denote l && denote r
  | Or l r => denote l || denote r
  end.

(** The module's test data. *)
Definition true_tests : list Expression :=
  [ And (Const true) (Const true);
    Or (Const true) (Const true);
    Or (Const true) (Const false);
    Or (Const false) (Const true);
    Or (And (Const false) (Const true)) (And (Const true) (Const true)) ].

Definition false_tests : list Expression :=
  [ And (Const true) (Const false);
    And (Const false) (Const true);
    And (Const false) (Const false);
    Or (Const false) (Const false);
    And (Or (Const true) (Const false)) (Or (Const false) (Const false)) ].

(** [Binop.__str__] of this module; the operands that are Python
    Booleans print as [str(True)] and [str(False)]. *)
Definition op_string (e : Expression) : string :=
  match e with
  | Const _ => ""%string
  | And _ _ => "&&"
  | Or _ _ => "||"
  end.

Fixpoint to_string (e : Expression) : string :=
  match e with
  | Const true => "True"
  | Const false => "False"
  | And l r | Or l r =>
      "(" +:+ to_string l +:+ " " +:+ op_string e +:+ " " +:+ to_string r +:+ ")"
  end.

(** Expressions built without [And]. *)
Fixpoint and_free (e : Expression) : bool :=
  match e with
  | Const _ => true
  | And _ _ => false
  | Or l r => and_free l && and_free r
  end.

(** Expressions in which no [Or] has an [And] inside its left operand. *)
Fixpoint or_left_and_free (e : Expression) : bool :=
  match e with
  | Const _ => true
  | And l r => or_left_and_free l && or_left_and_free r
  | Or l r => and_free l && or_left_and_free r
  end.

End boolean_evaluator.

(* ===================================================================== *)
(** ** sat_solver.py *)
(* ===================================================================== *)

Module sat_solver.

(** *** The AST *)

(** x ∈ Variable: left abstract by the source; strings, as in its tests. *)

(** e ::= Literal(x, b) | And(e1, e2) | Or(e1, e2) *)
Inductive Expression : Type :=
  | Literal (variable : string) (is_positive : bool)
  | And (left right : Expression)
  | Or (left right : Expression).

(** [Binop.op_string], as fixed by the constructors of [And] and [Or]. *)
Definition op_string (e : Expression) : string :=
  match e with
  | Literal _ _ => ""%string
  | And _ _ => "&&"
  | Or _ _ => "||"
  end.

(** [__str__] of [Literal] and of [Binop]. *)
Fixpoint to_string (e : Expression) : string :=
  match e with
  | Literal variable is_positive =>
      if is_positive then variable else "!" +:+ variable
  | And l r | Or l r =>
      "(" +:+ to_string l +:+ " " +:+ op_string e +:+ " " +:+ to_string r +:+ ")"
  end.

(** The linked list of goals: [Nil] and [Cons(head, tail)]. *)
Inductive List : Type :=
  | Nil
  | Cons (head : Expression) (tail : List).

(** *** Python's heap of dict objects *)

(** A dict from variables to Booleans, and the heap: the dict objects
    allocated so far, addressed by allocation order.  A reference handed
    out by [dict_new] or [dict_copy] always lies inside the heap; the
    total lookup [!!!] reads an address outside it as the empty dict, which
    the properties below rule out through [stores]. *)
Abbreviation dict := (gmap string bool).
Abbreviation heap := (list (gmap string bool)).
Abbreviation ref := nat.

Inductive exn : Type :=
  | KeyError (key : string)
  | RecursionError.

Inductive outcome (A : Type) : Type :=
  | Ret (a : A) (h : heap)
  | Raise (e : exn) (h : heap).
Arguments Ret {A} a h.
Arguments Raise {A} e h.

(** Computations over the heap that return or raise. *)
Definition Py (A : Type) : Type := heap → outcome A.

Definition ret {A} (a : A) : Py A := λ h, Ret a h.
Definition raise {A} (e : exn) : Py A := λ h, Raise e h.
Definition bind {A B} (c : Py A) (k : A → Py B) : Py B :=
  λ h, match c h with
       | Ret a h' => k a h'
       | Raise e h' => Raise e h'
       end.

Declare Scope py_scope.
Delimit Scope py_scope with py.
Bind Scope py_scope with Py.
Notation "x ← c ; k" := (bind c (λ x, k))
  (at level 20, c at level 100, k at level 200, only parsing) : py_scope.
Notation "c ;; k" := (bind c (λ _, k))
  (at level 100, k at level 200, only parsing, right associativity) : py_scope.
Open Scope py_scope.

(** [dict()] *)
Definition dict_new : Py ref :=
  λ h, Ret (length h) (h ++ [∅]).

(** [d.copy()]: a fresh object with the same items. *)
Definition dict_copy (d : ref) : Py ref :=
  λ h, Ret (length h) (h ++ [h !!! d]).

(** [d[key] = value]: writes into the object [d] itself. *)
Definition dict_setitem (d : ref) (key : string) (value : bool) : Py unit :=
  λ h, Ret tt (<[d := <[key := value]> (h !!! d)]> h).

(** [key in d] *)
Definition dict_contains (d : ref) (key : string) : Py bool :=
  λ h, Ret (bool_decide (is_Some ((h !!! d) !! key))) h.

(** [d[key]]: raises [KeyError] when the key is missing. *)
Definition dict_getitem (d : ref) (key : string) : Py bool :=
  λ h, match (h !!! d) !! key with
       | Some v => Ret v h
       | None => Raise (KeyError key) h
       end.

(** *** class ImmutableMap *)

(** An [ImmutableMap] object holds one attribute, [mapping], set once by
    [__init__]; it is a reference to a dict. *)
Record ImmutableMap : Type := { mapping : ref }.

Module ImmutableMap.

(** [__init__(self, mapping = None)] *)
Definition init (mapping : option ref) : Py ImmutableMap :=
  match mapping with
  | Some m => ret {| sat_solver.mapping := m |}
  | None => m ← dict_new; ret {| sat_solver.mapping := m |}
  end.

Definition add (self : ImmutableMap) (key : string) (value : bool)
  : Py ImmutableMap :=
  new_mapping ← dict_copy (mapping self);
  dict_setitem new_mapping key value;;
  init (Some new_mapping).

Definition contains (self : ImmutableMap) (key : string) : Py bool :=
  dict_contains (mapping self) key.

Definition get (self : ImmutableMap) (key : string) : Py bool :=
  dict_getitem (mapping self) key.

End ImmutableMap.

(** *** add_literal and solve *)

(** Returns [Some] store, or [None] for Python's [None]. *)
Definition add_literal (immutable_map : ImmutableMap) (variable : string)
    (boolean : bool) : Py (option ImmutableMap) :=
  c ← ImmutableMap.contains immutable_map variable;
  if c then
    v ← ImmutableMap.get immutable_map variable;
    if Bool.eqb v boolean then ret (Some immutable_map) else ret None
  else
    m ← ImmutableMap.add immutable_map variable boolean;
    ret (Some m).

(** [depth] bounds the nesting of calls of [solve]; running out of it is
    Python's [RecursionError].  The three [isinstance] tests on the head
    exhaust [Expression], so the end of the body after them is never
    reached. *)
Fixpoint solve (depth : nat) (goals : List) (literals : ImmutableMap)
    : Py (option ImmutableMap) :=
  match depth with
  | O => raise RecursionError
  | S depth =>
      match goals with
      | Nil => ret (Some literals)
      | Cons (Literal variable is_positive) tail =>
          result ← add_literal literals variable is_positive;
          match result with
          | None => ret None
          | Some result => solve depth tail result
          end
      | Cons (And l r) tail =>
          solve depth (Cons l (Cons r tail)) literals
      | Cons (Or l r) tail =>
          left_side ← solve depth (Cons l tail) literals;
          match left_side with
          | None => solve depth (Cons r tail) literals
          | Some _ => ret left_side
          end
      end
  end.

Definition solve_one (depth : nat) (formula : Expression)
    : Py (option ImmutableMap) :=
  literals ← ImmutableMap.init None;
  solve depth (Cons formula Nil) literals.

(** The module's test data. *)
Definition sat_tests : list Expression :=
  [ And (Or (Literal "a" true) (Literal "b" false)) (Literal "b" true);
    And (Or (Literal "x" true) (Literal "y" false))
        (Or (Literal "y" false) (Literal "z" true)) ].

Definition unsat_tests : list Expression :=
  [ And (Literal "x" true) (Literal "x" false) ].

(** *** Vocabulary of the properties *)

(** [stores h m d]: in heap [h] the store [m] holds exactly the bindings
    [d]. *)
Definition stores (h : heap) (m : ImmutableMap) (d : gmap string bool) : Prop :=
  h !! mapping m = Some d.

(** The same, for what [add_literal] and [solve] return. *)
Definition stores_result (h : heap) (r : option ImmutableMap)
    (c : option (gmap string bool)) : Prop :=
  match r, c with
  | Some m, Some d => stores h m d
  | None, None => True
  | _, _ => False
  end.

(** Nodes of a formula (literals and connectives), and of a worklist. *)
Fixpoint size (e : Expression) : nat :=
  match e with
  | Literal _ _ => 1
  | And l r | Or l r => S (size l + size r)
  end.

Fixpoint nodes (goals : List) : nat :=
  match goals with
  | Nil => 0
  | Cons head tail => size head + nodes tail
  end.

(** And/Or nodes only. *)
Fixpoint connectives_of (e : Expression) : nat :=
  match e with
  | Literal _ _ => 0
  | And l r | Or l r => S (connectives_of l + connectives_of r)
  end.

Fixpoint connectives (goals : List) : nat :=
  match goals with
  | Nil => 0
  | Cons head tail => connectives_of head + connectives tail
  end.

(** Variables that occur in a formula, and in a worklist. *)
Fixpoint vars (e : Expression) : gset string :=
  match e with
  | Literal variable _ => {[ variable ]}
  | And l r | Or l r => vars l ∪ vars r
  end.

Fixpoint goal_vars (goals : List) : gset string :=
  match goals with
  | Nil => ∅
  | Cons head tail => vars head ∪ goal_vars tail
  end.

(** Truth of a formula under a total valuation of the variables. *)
Fixpoint holds (ρ : string → bool) (e : Expression) : bool :=
  match e with
  | Literal variable is_positive => Bool.eqb (ρ variable) is_positive
  | And l r => holds ρ l && holds ρ r
  | Or l r => holds ρ l || holds ρ r
  end.

Fixpoint all_hold (ρ : string → bool) (goals : List) : bool :=
  match goals with
  | Nil => true
  | Cons head tail => holds ρ head && all_hold ρ tail
  end.

(** A valuation that gives every bound variable its bound value; the
    unbound ones are free. *)
Definition agrees (ρ : string → bool) (d : gmap string bool) : Prop :=
  ∀ x v, d !! x = Some v → ρ x = v.

(** The recursive calls one activation of [solve] makes:
    [recursive_call goals literals h goals' literals' h'] when the body
    run on [goals], [literals] from heap [h] reaches a call
    [solve(goals', literals')] with heap [h'].  The second call of the
    [Or] case is reached only once the first one has returned [None]. *)
Inductive recursive_call :
    List → ImmutableMap → heap → List → ImmutableMap → heap → Prop :=
  | call_literal variable is_positive tail literals h result h' :
      add_literal literals variable is_positive h = Ret (Some result) h' →
      recursive_call (Cons (Literal variable is_positive) tail) literals h
                     tail result h'
  | call_and l r tail literals h :
      recursive_call (Cons (And l r) tail) literals h
                     (Cons l (Cons r tail)) literals h
  | call_or_left l r tail literals h :
      recursive_call (Cons (Or l r) tail) literals h
                     (Cons l tail) literals h
  | call_or_right l r tail literals h depth h' :
      solve depth (Cons l tail) literals h = Ret None h' →
      recursive_call (Cons (Or l r) tail) literals h
                     (Cons r tail) literals h'.

(** *** The procedure read on the contents of the stores

    What [add_literal] and [solve] compute when a store is replaced by
    the bindings it holds; used to state and prove what the heap-level
    functions return. *)
Module Content.

Definition add_literal (d : gmap string bool) (variable : string)
    (boolean : bool) : option (gmap string bool) :=
  match d !! variable with
  | Some v => if Bool.eqb v boolean then Some d else None
  | None => Some (<[variable := boolean]> d)
  end.

(** Big-step reading of the body of [solve]. *)
Inductive solve : List → gmap string bool → option (gmap string bool) → Prop :=
  | solve_nil d :
      solve Nil d (Some d)
  | solve_conflict variable is_positive tail d :
      add_literal d variable is_positive = None →
      solve (Cons (Literal variable is_positive) tail) d None
  | solve_literal variable is_positive tail d result res :
      add_literal d variable is_positive = Some result →
      solve tail result res →
      solve (Cons (Literal variable is_positive) tail) d res
  | solve_and l r tail d res :
      solve (Cons l (Cons r tail)) d res →
      solve (Cons (And l r) tail) d res
  | solve_or_left l r tail d left_side :
      solve (Cons l tail) d (Some left_side) →
      solve (Cons (Or l r) tail) d (Some left_side)
  | solve_or_right l r tail d res :
      solve (Cons l tail) d None →
      solve (Cons r tail) d res →
      solve (Cons (Or l r) tail) d res.

End Content.

(** *** More vocabulary *)

(** What a call answers, the heap it leaves aside. *)
Definition answer {A} (o : outcome A) : A + exn :=
  match o with
  | Ret a _ => inl a
  | Raise e _ => inr e
  end.

(** The literals of a formula and of a worklist, with their polarity. *)
Fixpoint lits (e : Expression) : gset (string * bool) :=
  match e with
  | Literal variable is_positive => {[ (variable, is_positive) ]}
  | And l r | Or l r => lits l ∪ lits r
  end.

Fixpoint goal_lits (goals : List) : gset (string * bool) :=
  match goals with
  | Nil => ∅
  | Cons head tail => lits head ∪ goal_lits tail
  end.

(** Formulas and worklists without [Or]. *)
Fixpoint or_free (e : Expression) : bool :=
  match e with
  | Literal _ _ => true
  | And l r => or_free l && or_free r
  | Or _ _ => false
  end.

Fixpoint goals_or_free (goals : List) : bool :=
  match goals with
  | Nil => true
  | Cons head tail => or_free head && goals_or_free tail
  end.

(** The valuation that reads a store and sends unbound variables to
    [False]. *)
Definition valuation_of (d : gmap string bool) : string → bool :=
  λ x, default false (d !! x).

(** Variable names that cannot be mistaken for the punctuation of
    [to_string]: not empty, and free of blanks, parentheses and [!]. *)
Import Stdlib.Strings.Ascii.

Definition plain_char (c : Ascii.ascii) : bool :=
  negb (Ascii.eqb c " " || Ascii.eqb c "(" || Ascii.eqb c ")"
        || Ascii.eqb c "!")%char.

Fixpoint plain_chars (s : string) : bool :=
  match s with
  | EmptyString => true
  | String c s => plain_char c && plain_chars s
  end.

Definition plain_name (s : string) : bool :=
  match s with
  | EmptyString => false
  | String _ _ => plain_chars s
  end.

(** What may follow a rendered name inside a rendering: nothing, or a
    character that no plain name contains. *)
Definition ends_name (s : string) : bool :=
  match s with
  | EmptyString => true
  | String c _ => negb (plain_char c)
  end.

Fixpoint plain_names (e : Expression) : bool :=
  match e with
  | Literal variable _ => plain_name variable
  | And l r | Or l r => plain_names l && plain_names r
  end.

End sat_solver.

(* ===================================================================== *)
(** ** Properties of boolean_evaluator.py *)
(* ===================================================================== *)

Module boolean_evaluator_facts.
Import boolean_evaluator.

(** An [And] whose left operand does not come out as [True] ends without
    a [return]. *)
Lemma eval_expr_And_fallthrough l r :
  eval_expr l ≠ VBool true → eval_expr (And l r) = VNone.
Proof.
  intros Hl. cbn [eval_expr].
  destruct (eval_expr l) as [[|]|]; cbn; congruence.
Qed.

(** What does hold of [eval_expr]: a result that is not truthy
    ([False] or [None]) is never wrong, and a true expression always
    comes out as [True].  The converse of each fails, see below. *)
Lemma eval_expr_falsy_sound e :
  (truthy (eval_expr e) = false → denote e = false)
  ∧ (denote e = true → eval_expr e = VBool true).
Proof.
  induction e as [[|]|l [IHl1 IHl2] r [IHr1 IHr2]|l [IHl1 IHl2] r [IHr1 IHr2]];
    cbn [eval_expr denote]; try (split; [done || discriminate | done]).
  - split.
    + destruct (eval_expr l) as [[|]|] eqn:El; cbn.
      * intros Hr. rewrite (IHr1 Hr). apply andb_false_r.
      * intros _. by rewrite IHl1.
      * intros _. by rewrite IHl1.
    + intros [Hl Hr]%andb_true_iff. by rewrite (IHl2 Hl), (IHr2 Hr).
  - split.
    + destruct (eval_expr l) as [[|]|] eqn:El; cbn; try discriminate.
      intros Hr. by rewrite (IHr1 Hr), IHl1.
    + destruct (eval_expr l) as [[|]|] eqn:El; cbn; try done.
      intros [Hl | Hr]%orb_true_iff.
      * by specialize (IHl2 Hl).
      * by apply IHr2.
Qed.

(** The two test lists of the module pass under [run_tests], which only
    looks at truthiness. *)
Example true_tests_pass :
  Forall (λ e, truthy (eval_expr e) = true) true_tests.
Proof. repeat constructor. Qed.

Example false_tests_pass :
  Forall (λ e, truthy (eval_expr e) = false) false_tests.
Proof. repeat constructor. Qed.

(** C7 (code defect).  [eval_expr] does not always return a Boolean: on
    [And(False, True)], and on every [And] whose left operand evaluates to
    [False], the body ends without a [return] and the call yields [None],
    although the expression is plainly false.  The damage is not confined
    to the type of the result: the [None] reaches the test
    [eval_expr(expression.left) == False] of an enclosing [Or], which it
    fails, so [Or(And(False, True), False)] comes out as [True] while the
    expression is false.  Truthiness therefore does NOT coincide with the
    standard semantics on that input. *)
Theorem eval_expr_None_breaks_Or :
  eval_expr (And (Const false) (Const true)) = VNone
  ∧ denote (And (Const false) (Const true)) = false
  ∧ (∀ l r, eval_expr l = VBool false → eval_expr (And l r) = VNone)
  ∧ eval_expr (Or (And (Const false) (Const true)) (Const false)) = VBool true
  ∧ truthy (eval_expr (Or (And (Const false) (Const true)) (Const false))) = true
  ∧ denote (Or (And (Const false) (Const true)) (Const false)) = false.
Proof.
  repeat split; try reflexivity.
  intros l r Hl. apply eval_expr_And_fallthrough. by rewrite Hl.
Qed.

(** *** Where [eval_expr] can be trusted *)

(** X9.  [eval_expr] never under-reports: a true expression always
    evaluates to [True], and a result that is not truthy ([False] or
    [None]) is only returned for a false expression. *)
Theorem eval_expr_never_underreports e :
  (denote e = true → eval_expr e = VBool true)
  ∧ (truthy (eval_expr e) = false → denote e = false).
Proof. destruct (eval_expr_falsy_sound e). by split. Qed.

Lemma eval_expr_never_underreports_witness :
  eval_expr (Or (Const false) (And (Const true) (Const true))) = VBool true.
Proof.
  apply (proj1 (eval_expr_never_underreports
                  (Or (Const false) (And (Const true) (Const true))))).
  reflexivity.
Defined.

(** X10.  On expressions built from the constants and [Or] only,
    [eval_expr] returns the Boolean value of the expression. *)
Theorem eval_expr_and_free e :
  and_free e = true → eval_expr e = VBool (denote e).
Proof.
  induction e as [[|]|l IHl r IHr|l IHl r IHr]; cbn; try done.
  intros [Hl Hr]%andb_true_iff. rewrite (IHl Hl).
  destruct (denote l); cbn; [done | by apply IHr].
Qed.

Lemma eval_expr_and_free_witness :
  eval_expr (Or (Or (Const false) (Const false)) (Const false))
  = VBool (denote (Or (Or (Const false) (Const false)) (Const false))).
Proof. apply eval_expr_and_free. reflexivity. Defined.

(** X11.  When no [Or] has an [And] inside its left operand, the
    truthiness of the result is the value of the expression; this is
    what [run_tests] checks. *)
Theorem eval_expr_truthy_correct e :
  or_left_and_free e = true → truthy (eval_expr e) = denote e.
Proof.
  induction e as [[|]|l IHl r IHr|l IHl r IHr]; cbn; try done.
  - intros [Hl Hr]%andb_true_iff.
    specialize (IHl Hl). specialize (IHr Hr).
    destruct (eval_expr l) as [[|]|]; cbn in *; by rewrite <- IHl.
  - intros [Hl Hr]%andb_true_iff.
    rewrite (eval_expr_and_free _ Hl).
    destruct (denote l); cbn; [done | by apply IHr].
Qed.

Lemma eval_expr_truthy_correct_witness :
  truthy (eval_expr (And (Or (Const true) (Const false))
                         (Or (Const false) (Const false))))
  = denote (And (Or (Const true) (Const false))
                (Or (Const false) (Const false))).
Proof. apply eval_expr_truthy_correct. reflexivity. Defined.

(** *** Rendering *)

Lemma append_cons_s (x : Ascii.ascii) (a b : string) :
  String x a +:+ b = String x (a +:+ b).
Proof. reflexivity. Qed.

Lemma append_nil_s (b : string) : "" +:+ b = b.
Proof. reflexivity. Qed.

Lemma append_assoc_s (a b c : string) : (a +:+ b) +:+ c = a +:+ (b +:+ c).
Proof.
  induction a as [|x a IH]; [done|].
  by rewrite !append_cons_s, IH.
Qed.

(** No rendering is a proper prefix of another, whatever follows. *)
Lemma to_string_prefix_free e1 : ∀ e2 s1 s2,
  to_string e1 +:+ s1 = to_string e2 +:+ s2 → e1 = e2 ∧ s1 = s2.
Proof.
  induction e1 as [[|]|l1 IHl r1 IHr|l1 IHl r1 IHr];
    intros [[|]|l2 r2|l2 r2] s1 s2; cbn [to_string op_string];
    rewrite ?append_assoc_s, ?append_cons_s, ?append_nil_s;
    try discriminate; try (by intros [= ->]).
  all: intros [= H].
  all: apply IHl in H as [-> H]; try discriminate.
  all: injection H as H.
  all: apply IHr in H as [-> H]; by injection H as ->.
Qed.

(** X12.  The rendering of ground expressions is unambiguous: two
    expressions with the same string are the same expression. *)
Theorem to_string_injective e1 e2 :
  to_string e1 = to_string e2 → e1 = e2.
Proof.
  intros H. apply (to_string_prefix_free e1 e2 "" "").
  by rewrite H.
Qed.

Lemma to_string_injective_witness :
  And (Const true) (Or (Const false) (Const true))
  = And (Const true) (Or (Const false) (Const true)).
Proof. apply to_string_injective. reflexivity. Defined.

End boolean_evaluator_facts.

(* ===================================================================== *)
(** ** Properties of sat_solver.py *)
(* ===================================================================== *)

Module sat_solver_facts.
Import sat_solver.
#[local] Set Warnings "-clear-no-such-hyp".

(** *** Rendering *)

(** C10.  Rendering is the parenthesized infix form: a positive literal
    is its variable name, a negative one the name after the marker [!];
    [And] and [Or] render as "(" left " " op " " right ")" where op is
    [&&] for [And] and [||] for [Or], two distinct tokens of two
    characters; and And(p, Or(!q, r)) renders as (p && (!q || r)). *)
Theorem to_string_infix :
  (∀ x, to_string (Literal x true) = x)
  ∧ (∀ x, to_string (Literal x false) = "!" +:+ x)
  ∧ (∀ l r, to_string (And l r)
            = "(" +:+ to_string l +:+ " " +:+ "&&" +:+ " " +:+ to_string r +:+ ")")
  ∧ (∀ l r, to_string (Or l r)
            = "(" +:+ to_string l +:+ " " +:+ "||" +:+ " " +:+ to_string r +:+ ")")
  ∧ (∀ l r, op_string (And l r) = "&&" ∧ op_string (Or l r) = "||")
  ∧ String.length "&&" = 2 ∧ String.length "||" = 2 ∧ "&&" ≠ "||"
  ∧ to_string (And (Literal "p" true)
                   (Or (Literal "q" false) (Literal "r" true)))
    = "(p && (!q || r))".
Proof. repeat split; done. Qed.

(** *** The store primitives *)

Lemma stores_total h m d : stores h m d → h !!! mapping m = d.
Proof. apply list_lookup_total_correct. Qed.

Lemma stores_prefix h h' m d : stores h m d → h `prefix_of` h' → stores h' m d.
Proof. apply prefix_lookup_Some. Qed.

Lemma stores_valid h m d : stores h m d → mapping m < length h.
Proof. intros H. by eapply lookup_lt_Some. Qed.

(** [ImmutableMap()] allocates an empty dict and touches nothing else. *)
Lemma init_None_run h :
  ImmutableMap.init None h = Ret {| mapping := length h |} (h ++ [∅]).
Proof. reflexivity. Qed.

Lemma stores_alloc h d : stores (h ++ [d]) {| mapping := length h |} d.
Proof. unfold stores; cbn. by apply list_lookup_middle. Qed.

(** [add] leaves every dict of the heap as it was and puts the extended
    copy behind them. *)
Lemma add_run h m d key value :
  stores h m d →
  ImmutableMap.add m key value h
  = Ret {| mapping := length h |} (h ++ [<[key := value]> d]).
Proof.
  intros Hm. unfold ImmutableMap.add, bind, dict_copy, dict_setitem; cbn.
  rewrite (stores_total _ _ _ Hm).
  rewrite (list_lookup_total_middle h [] d (length h) eq_refl).
  unfold ret. f_equal.
  rewrite insert_app_r_alt by lia. by rewrite Nat.sub_diag.
Qed.

(** What a call of [add_literal] does, by the binding of the variable. *)
Lemma add_literal_run h m d variable boolean :
  stores h m d →
  add_literal m variable boolean h
  = match d !! variable with
    | Some v => if Bool.eqb v boolean then Ret (Some m) h else Ret None h
    | None => Ret (Some {| mapping := length h |})
                  (h ++ [<[variable := boolean]> d])
    end.
Proof.
  intros Hm. unfold add_literal, bind at 1.
  unfold ImmutableMap.contains, dict_contains.
  rewrite (stores_total _ _ _ Hm).
  destruct (d !! variable) as [v|] eqn:Hv.
  - rewrite bool_decide_eq_true_2 by eauto.
    unfold bind, ImmutableMap.get, dict_getitem.
    rewrite (stores_total _ _ _ Hm), Hv. by destruct (Bool.eqb v boolean).
  - rewrite bool_decide_eq_false_2 by (intros [? ?]; congruence).
    unfold bind. by rewrite (add_run _ _ _ _ _ Hm).
Qed.

(** [add_literal] always returns: [get] is only reached after [contains]
    has answered [True] on the same dict. *)
Lemma add_literal_returns m variable boolean h :
  ∃ r h', add_literal m variable boolean h = Ret r h'.
Proof.
  unfold add_literal, bind at 1.
  unfold ImmutableMap.contains, dict_contains.
  case_bool_decide as Hc.
  - destruct Hc as [v Hv].
    unfold bind, ImmutableMap.get, dict_getitem. rewrite Hv.
    destruct (Bool.eqb v boolean); eauto.
  - unfold bind, ImmutableMap.add, bind, dict_copy, dict_setitem; cbn. eauto.
Qed.

(** The heap-level call computes [Content.add_literal] on the bindings and
    only ever appends to the heap. *)
Lemma add_literal_content h m d variable boolean r h' :
  stores h m d →
  add_literal m variable boolean h = Ret r h' →
  h `prefix_of` h' ∧ stores_result h' r (Content.add_literal d variable boolean).
Proof.
  intros Hm. rewrite (add_literal_run _ _ _ _ _ Hm). unfold Content.add_literal.
  destruct (d !! variable) as [v|]; [destruct (Bool.eqb v boolean)|];
    intros [= <- <-]; cbn; try done.
  split; [by apply prefix_app_r | apply stores_alloc].
Qed.

(** *** Unfolding [solve] by the shape of the worklist *)

Lemma solve_0 goals m h : solve 0 goals m h = Raise RecursionError h.
Proof. reflexivity. Qed.

Lemma solve_nil_eq n m h : solve (S n) Nil m h = Ret (Some m) h.
Proof. reflexivity. Qed.

Lemma solve_literal_eq n x b t m h :
  solve (S n) (Cons (Literal x b) t) m h
  = match add_literal m x b h with
    | Ret (Some result) h' => solve n t result h'
    | Ret None h' => Ret None h'
    | Raise e h' => Raise e h'
    end.
Proof.
  cbn [solve]. unfold bind at 1.
  by destruct (add_literal m x b h) as [[?|] ?|? ?].
Qed.

Lemma solve_and_eq n l r t m h :
  solve (S n) (Cons (And l r) t) m h = solve n (Cons l (Cons r t)) m h.
Proof. reflexivity. Qed.

Lemma solve_or_eq n l r t m h :
  solve (S n) (Cons (Or l r) t) m h
  = match solve n (Cons l t) m h with
    | Ret (Some left_side) h' => Ret (Some left_side) h'
    | Ret None h' => solve n (Cons r t) m h'
    | Raise e h' => Raise e h'
    end.
Proof.
  cbn [solve]. unfold bind at 1.
  by destruct (solve n (Cons l t) m h) as [[?|] ?|? ?].
Qed.

(** *** Depth *)

(** The only exception [solve] can end in is the exhausted depth budget,
    and only when the budget is no more than the nodes of the worklist. *)
Lemma solve_raise n : ∀ goals m h e h',
  solve n goals m h = Raise e h' → e = RecursionError ∧ n ≤ nodes goals.
Proof.
  induction n as [|n IH]; intros goals m h e h'.
  { rewrite solve_0. intros [= <- _]. split; [done | lia]. }
  destruct goals as [|[x b|l r|l r] t].
  - by rewrite solve_nil_eq.
  - rewrite solve_literal_eq.
    destruct (add_literal_returns m x b h) as (res & h1 & ->).
    destruct res as [result|]; [|done].
    intros [-> ?]%IH. split; [done | cbn; lia].
  - rewrite solve_and_eq. intros [-> ?]%IH. split; [done | cbn in *; lia].
  - rewrite solve_or_eq.
    destruct (solve n (Cons l t) m h) as [[left_side|] h1|e1 h1] eqn:El; [done|..].
    + intros [-> ?]%IH. split; [done | cbn in *; lia].
    + intros [= <- <-]. apply IH in El as [-> ?]. split; [done | cbn in *; lia].
Qed.

(** With a budget above the number of nodes, [solve] returns. *)
Lemma solve_returns n goals m h :
  nodes goals < n → ∃ r h', solve n goals m h = Ret r h'.
Proof.
  intros Hn. destruct (solve n goals m h) as [r h'|e h'] eqn:E; [eauto|].
  apply solve_raise in E as [_ ?]. lia.
Qed.

(** A larger budget does not change what a returning call returns. *)
Lemma solve_deeper n : ∀ goals m h r h',
  solve n goals m h = Ret r h' → solve (S n) goals m h = Ret r h'.
Proof.
  induction n as [|n IH]; intros goals m h res h'; [by rewrite solve_0|].
  destruct goals as [|[x b|l r|l r] t].
  - by rewrite !solve_nil_eq.
  - rewrite !solve_literal_eq.
    destruct (add_literal m x b h) as [[result|] h1|e h1]; [apply IH|done..].
  - rewrite !solve_and_eq. apply IH.
  - rewrite (solve_or_eq n), (solve_or_eq (S n)).
    destruct (solve n (Cons l t) m h) as [[left_side|] h1|e h1] eqn:El; [| |done].
    + by rewrite (IH _ _ _ _ _ El).
    + rewrite (IH _ _ _ _ _ El). apply IH.
Qed.

Lemma solve_deeper_le n n' goals m h r h' :
  n ≤ n' → solve n goals m h = Ret r h' → solve n' goals m h = Ret r h'.
Proof. induction 1; [done|]. intros. by apply solve_deeper; auto. Qed.

(** *** The contents of the stores *)

Lemma content_add_literal_Some d x b d' :
  Content.add_literal d x b = Some d' →
  d ⊆ d' ∧ d' !! x = Some b ∧ dom d' = dom d ∪ {[ x ]}.
Proof.
  unfold Content.add_literal.
  destruct (d !! x) as [v|] eqn:Hv.
  - destruct (Bool.eqb v b) eqn:Hb; [|done].
    apply Bool.eqb_prop in Hb as ->. intros [= <-].
    split_and!; [done..|].
    apply elem_of_dom_2 in Hv. set_solver.
  - intros [= <-]. split_and!.
    + by apply insert_subseteq.
    + apply lookup_insert_eq.
    + rewrite dom_insert_L. set_solver.
Qed.

Lemma content_add_literal_None d x b :
  Content.add_literal d x b = None → d !! x = Some (negb b).
Proof.
  unfold Content.add_literal.
  destruct (d !! x) as [v|]; [|done].
  by destruct v, b.
Qed.

(** Every store returned extends the one passed in, by variables of the
    worklist only. *)
Lemma content_solve_extends goals d res :
  Content.solve goals d res →
  ∀ d', res = Some d' → d ⊆ d' ∧ dom d' ⊆ dom d ∪ goal_vars goals.
Proof.
  induction 1 as [d|x b t d Hc|x b t d d1 res Ha _ IH|l r t d res _ IH
                 |l r t d d1 _ IH|l r t d res _ _ _ IH]; intros d' Hres.
  - injection Hres as <-. split; [done | set_solver].
  - done.
  - apply content_add_literal_Some in Ha as (Hsub & _ & Hdom).
    destruct (IH _ Hres) as [Hsub' Hdom'].
    split; [by etrans | cbn; set_solver].
  - destruct (IH _ Hres) as [Hsub' Hdom']. split; [done | cbn in *; set_solver].
  - destruct (IH _ Hres) as [Hsub' Hdom']. split; [done | cbn in *; set_solver].
  - destruct (IH _ Hres) as [Hsub' Hdom']. split; [done | cbn in *; set_solver].
Qed.

(** Every goal of the worklist holds under any valuation that agrees
    with the store returned. *)
Lemma content_solve_sound goals d res :
  Content.solve goals d res →
  ∀ d' ρ, res = Some d' → agrees ρ d' → all_hold ρ goals = true.
Proof.
  induction 1 as [d|x b t d Hc|x b t d d1 res Ha Hs IH|l r t d res _ IH
                 |l r t d d1 _ IH|l r t d res _ _ _ IH]; intros d' ρ Hres Hρ.
  - done.
  - done.
  - cbn. rewrite (IH _ _ Hres Hρ), andb_true_r.
    apply content_add_literal_Some in Ha as (_ & Hx & _).
    destruct (content_solve_extends _ _ _ Hs _ Hres) as [Hsub _].
    rewrite (Hρ x b); [by destruct b|].
    by eapply lookup_weaken.
  - specialize (IH _ _ Hres Hρ). cbn in *.
    by rewrite <- andb_assoc.
  - specialize (IH _ _ Hres Hρ). cbn in *.
    apply andb_true_iff in IH as [-> ->]. done.
  - specialize (IH _ _ Hres Hρ). cbn in *.
    apply andb_true_iff in IH as [-> ->]. by rewrite orb_true_r.
Qed.

(** The contents returned are a function of the worklist and the store. *)
Lemma content_solve_functional goals d res1 :
  Content.solve goals d res1 → ∀ res2, Content.solve goals d res2 → res1 = res2.
Proof.
  induction 1 as [d|x b t d Hc|x b t d d1 res Ha _ IH|l r t d res _ IH
                 |l r t d d1 _ IH|l r t d res _ IHl _ IH]; intros res2 H2;
    inversion H2; subst; try done; try congruence; auto.
  - apply IH. congruence.
  - by specialize (IH _ ltac:(eassumption)).
  - by specialize (IHl _ ltac:(eassumption)).
Qed.

(** *** From the heap to the contents *)

(** A returning call of [solve] only appends to the heap, and what it
    returns holds the contents that [Content.solve] derives. *)
Lemma solve_content n : ∀ goals m h d r h',
  stores h m d →
  solve n goals m h = Ret r h' →
  h `prefix_of` h' ∧ ∃ c, Content.solve goals d c ∧ stores_result h' r c.
Proof.
  induction n as [|n IH]; intros goals m h d res h' Hm; [by rewrite solve_0|].
  destruct goals as [|[x b|l r|l r] t].
  - rewrite solve_nil_eq. intros [= <- <-].
    split; [done|]. exists (Some d). split; [constructor | done].
  - rewrite solve_literal_eq.
    destruct (add_literal m x b h) as [[result|] h1|e h1] eqn:Ea; [| |done].
    + destruct (add_literal_content _ _ _ _ _ _ _ Hm Ea) as [Hp Hr].
      destruct (Content.add_literal d x b) as [d1|] eqn:Ec; [|done].
      intros (Hp' & c & Hc & Hres)%(IH _ _ _ d1); [|done].
      split; [by etrans|]. exists c. split; [by econstructor | done].
    + destruct (add_literal_content _ _ _ _ _ _ _ Hm Ea) as [Hp Hr].
      destruct (Content.add_literal d x b) as [d1|] eqn:Ec; [done|].
      intros [= <- <-]. split; [done|].
      exists None. split; [by constructor | done].
  - rewrite solve_and_eq.
    intros (Hp' & c & Hc & Hres)%(IH _ _ _ d); [|done].
    split; [done|]. exists c. split; [by constructor | done].
  - rewrite solve_or_eq.
    destruct (solve n (Cons l t) m h) as [[left_side|] h1|e h1] eqn:El; [| |done].
    + apply (IH _ _ _ d) in El as (Hp & c & Hc & Hres); [|done].
      intros [= <- <-]. split; [done|].
      destruct c as [d1|]; [|done].
      exists (Some d1). split; [by constructor | done].
    + apply (IH _ _ _ d) in El as (Hp & c & Hc & Hres); [|done].
      destruct c as [d1|]; [done|].
      intros (Hp' & c & Hc' & Hres')%(IH _ _ _ d);
        [|by eapply stores_prefix].
      split; [by etrans|]. exists c. split; [by apply Content.solve_or_right | done].
Qed.

(** *** add_literal *)

(** C4.  Conflict-checked assignment, on a store [m] holding the
    bindings [d]: if [x] is bound to the opposite of [v] the call returns
    [None]; if [x] is bound to [v] it returns [m] itself and the heap is
    untouched; if [x] is unbound it returns a new store, distinct from
    [m], that binds [x] to [v] and agrees with [d] on every other
    variable, while [m] still holds [d] and no dict allocated before the
    call has changed. *)
Theorem add_literal_three_cases h m d x v :
  stores h m d →
  (d !! x = Some (negb v) → add_literal m x v h = Ret None h)
  ∧ (d !! x = Some v → add_literal m x v h = Ret (Some m) h)
  ∧ (d !! x = None →
     ∃ m' h' d',
       add_literal m x v h = Ret (Some m') h'
       ∧ stores h' m' d'
       ∧ d' !! x = Some v
       ∧ (∀ y, y ≠ x → d' !! y = d !! y)
       ∧ stores h' m d
       ∧ h `prefix_of` h'
       ∧ mapping m' ≠ mapping m).
Proof.
  intros Hm. rewrite (add_literal_run _ _ _ _ _ Hm). split_and!.
  - intros ->. by destruct v.
  - intros ->. by destruct v.
  - intros ->.
    exists {| mapping := length h |}, (h ++ [<[x := v]> d]), (<[x := v]> d).
    split_and!.
    + done.
    + apply stores_alloc.
    + apply lookup_insert_eq.
    + intros y Hy. by apply lookup_insert_ne.
    + eapply stores_prefix; [done | by apply prefix_app_r].
    + by apply prefix_app_r.
    + apply stores_valid in Hm. cbn. lia.
Qed.

Lemma add_literal_three_cases_witness :
  add_literal {| mapping := 0 |} "x" false [{[ "x" := true ]}]
    = Ret None [{[ "x" := true ]}]
  ∧ add_literal {| mapping := 0 |} "x" true [{[ "x" := true ]}]
    = Ret (Some {| mapping := 0 |}) [{[ "x" := true ]}]
  ∧ ∃ m' h' d',
      add_literal {| mapping := 0 |} "y" false [{[ "x" := true ]}]
        = Ret (Some m') h'
      ∧ stores h' m' d'
      ∧ d' !! "y" = Some false
      ∧ (∀ y, y ≠ "y" → d' !! y = ({[ "x" := true ]} : gmap string bool) !! y)
      ∧ stores h' {| mapping := 0 |} {[ "x" := true ]}
      ∧ [{[ "x" := true ]}] `prefix_of` h'
      ∧ mapping m' ≠ 0.
Proof.
  split_and!.
  - apply (add_literal_three_cases [{[ "x" := true ]}] {| mapping := 0 |}
             {[ "x" := true ]} "x" false); reflexivity.
  - apply (add_literal_three_cases [{[ "x" := true ]}] {| mapping := 0 |}
             {[ "x" := true ]} "x" true); reflexivity.
  - apply (add_literal_three_cases [{[ "x" := true ]}] {| mapping := 0 |}
             {[ "x" := true ]} "y" false); reflexivity.
Defined.

(** *** KeyError *)

(** C9.  [get] on a variable the store does not contain raises
    [KeyError]: an exception, not the [None] that stands for a conflict.
    The solver never gets there: [add_literal] always returns, it
    returns [None] only when the variable is bound to the opposite value,
    and a call of [solve] never ends in [KeyError]. *)
Theorem get_unbound_raises_unreachable :
  (∀ h m d key,
      stores h m d → d !! key = None →
      ImmutableMap.contains m key h = Ret false h
      ∧ ImmutableMap.get m key h = Raise (KeyError key) h)
  ∧ (∀ m x v h, ∃ r h', add_literal m x v h = Ret r h')
  ∧ (∀ h m d x v h',
      stores h m d → add_literal m x v h = Ret None h' →
      d !! x = Some (negb v))
  ∧ (∀ depth goals m h key h',
      solve depth goals m h = Raise (KeyError key) h' → False).
Proof.
  split_and!.
  - intros h m d key Hm Hk.
    unfold ImmutableMap.contains, ImmutableMap.get, dict_contains, dict_getitem.
    rewrite (stores_total _ _ _ Hm), Hk. split; [|done].
    by rewrite bool_decide_eq_false_2 by (intros [? ?]; congruence).
  - apply add_literal_returns.
  - intros h m d x v h' Hm Ha.
    destruct (add_literal_content _ _ _ _ _ _ _ Hm Ha) as [_ Hr].
    destruct (Content.add_literal d x v) eqn:Ec; [done|].
    by apply content_add_literal_None.
  - intros depth goals m h key h' [? _]%solve_raise. done.
Qed.

Lemma get_unbound_raises_unreachable_witness :
  ImmutableMap.contains {| mapping := 0 |} "x" [∅] = Ret false [∅]
  ∧ ImmutableMap.get {| mapping := 0 |} "x" [∅] = Raise (KeyError "x") [∅].
Proof.
  apply (proj1 get_unbound_raises_unreachable [∅] {| mapping := 0 |} ∅ "x");
    reflexivity.
Defined.

(** *** solve *)

(** C2.  Termination: on every worklist, from every store and heap,
    [solve] returns a result (a store or [None]) as soon as the depth
    budget exceeds the number of nodes of the worklist, and the result
    does not depend on the budget.  A call with budget [depth] nests at
    most [depth] activations, each making at most two recursive calls,
    so the calls made are finitely many. *)
Theorem solve_terminates goals literals h :
  ∃ r h', ∀ depth, nodes goals < depth → solve depth goals literals h = Ret r h'.
Proof.
  destruct (solve_returns (S (nodes goals)) goals literals h) as (r & h' & E);
    [lia|].
  exists r, h'. intros depth Hd.
  apply (solve_deeper_le (S (nodes goals))); [lia | done].
Qed.

(** C3.  Disjunction is left-biased and short-circuiting.  With an
    [Or(l, r)] at the head of the worklist, [solve] first runs on [l]
    followed by the tail; when that call returns a store, this very
    store and heap are the result and nothing more is run; when it
    returns [None], the store passed in still holds the bindings it held
    before the attempt, and the result is that of [solve] on [r]
    followed by the tail with that same store. *)
Theorem solve_or_left_biased depth l r tail literals h d :
  stores h literals d →
  (∀ left_side h',
      solve depth (Cons l tail) literals h = Ret (Some left_side) h' →
      solve (S depth) (Cons (Or l r) tail) literals h = Ret (Some left_side) h')
  ∧ (∀ h',
      solve depth (Cons l tail) literals h = Ret None h' →
      stores h' literals d
      ∧ solve (S depth) (Cons (Or l r) tail) literals h
        = solve depth (Cons r tail) literals h').
Proof.
  intros Hm. rewrite solve_or_eq. split.
  - by intros left_side h' ->.
  - intros h' El. rewrite El. split; [|done].
    apply (solve_content _ _ _ _ d) in El as [Hp _]; [|done].
    by eapply stores_prefix.
Qed.

Lemma solve_or_left_biased_witness :
  solve 3 (Cons (Or (Literal "x" true) (Literal "y" true)) Nil)
        {| mapping := 0 |} [∅]
  = Ret (Some {| mapping := 1 |}) [∅; {[ "x" := true ]}]
  ∧ stores [{[ "x" := true ]}] {| mapping := 0 |} {[ "x" := true ]}
  ∧ solve 3 (Cons (Or (Literal "x" false) (Literal "y" true)) Nil)
          {| mapping := 0 |} [{[ "x" := true ]}]
    = solve 2 (Cons (Literal "y" true) Nil)
            {| mapping := 0 |} [{[ "x" := true ]}].
Proof.
  split.
  - apply (solve_or_left_biased 2 (Literal "x" true) (Literal "y" true) Nil
             {| mapping := 0 |} [∅] ∅); reflexivity.
  - apply (solve_or_left_biased 2 (Literal "x" false) (Literal "y" true) Nil
             {| mapping := 0 |} [{[ "x" := true ]}] {[ "x" := true ]});
      reflexivity.
Defined.

(** C8.  Store extension.  When [solve] returns a store, it holds every
    binding of the store passed in, with the same value, and binds no
    variable beyond those and the variables of the worklist; so every
    variable bound in the result of [solve_one] occurs in the formula. *)
Theorem solve_extends_store :
  (∀ depth goals m h d m' h',
      stores h m d →
      solve depth goals m h = Ret (Some m') h' →
      ∃ d', stores h' m' d'
            ∧ (∀ x v, d !! x = Some v → d' !! x = Some v)
            ∧ (∀ x, is_Some (d' !! x) → is_Some (d !! x) ∨ x ∈ goal_vars goals))
  ∧ (∀ depth formula h m' h',
      solve_one depth formula h = Ret (Some m') h' →
      ∃ d', stores h' m' d' ∧ ∀ x, is_Some (d' !! x) → x ∈ vars formula).
Proof.
  assert (Hgen : ∀ depth goals m h d m' h',
    stores h m d → solve depth goals m h = Ret (Some m') h' →
    ∃ d', stores h' m' d' ∧ d ⊆ d' ∧ dom d' ⊆ dom d ∪ goal_vars goals).
  { intros depth goals m h d m' h' Hm Hs.
    destruct (solve_content _ _ _ _ _ _ _ Hm Hs) as (_ & [d'|] & Hc & Hr);
      [|done].
    exists d'. split; [done|]. by eapply content_solve_extends. }
  split.
  - intros depth goals m h d m' h' Hm Hs.
    destruct (Hgen _ _ _ _ _ _ _ Hm Hs) as (d' & Hd' & Hsub & Hdom).
    exists d'. split_and!; [done| |].
    + intros x v Hx. by eapply lookup_weaken.
    + intros x Hx%elem_of_dom. apply Hdom, elem_of_union in Hx as [Hx|Hx];
        [left; by apply elem_of_dom | by right].
  - intros depth formula h m' h'. unfold solve_one, bind.
    rewrite init_None_run. intros Hs.
    destruct (Hgen _ _ _ _ _ _ _ (stores_alloc h ∅) Hs) as (d' & Hd' & _ & Hdom).
    exists d'. split; [done|].
    intros x Hx%elem_of_dom. apply Hdom in Hx. cbn in Hx. set_solver.
Qed.

Lemma solve_extends_store_witness :
  ∃ d', stores [{[ "x" := true ]}; {[ "x" := true; "y" := false ]}]
               {| mapping := 1 |} d'
        ∧ (∀ x v, ({[ "x" := true ]} : gmap string bool) !! x = Some v →
                  d' !! x = Some v)
        ∧ (∀ x, is_Some (d' !! x) →
                is_Some (({[ "x" := true ]} : gmap string bool) !! x)
                ∨ x ∈ goal_vars (Cons (And (Literal "x" true) (Literal "y" false)) Nil)).
Proof.
  apply (proj1 solve_extends_store 4
           (Cons (And (Literal "x" true) (Literal "y" false)) Nil)
           {| mapping := 0 |} [{[ "x" := true ]}] {[ "x" := true ]}).
  - reflexivity.
  - vm_compute. reflexivity.
Defined.

(** C1.  Soundness.  When [solve_one] returns a store, every valuation
    of the variables that gives each bound variable its bound value,
    whatever it gives the others, makes the formula true. *)
Theorem solve_one_sound depth formula h m h' :
  solve_one depth formula h = Ret (Some m) h' →
  ∃ d, stores h' m d ∧ ∀ ρ, agrees ρ d → holds ρ formula = true.
Proof.
  unfold solve_one, bind. rewrite init_None_run. intros Hs.
  destruct (solve_content _ _ _ _ _ _ _ (stores_alloc h ∅) Hs)
    as (_ & [d|] & Hc & Hr); [|done].
  exists d. split; [done|]. intros ρ Hρ.
  pose proof (content_solve_sound _ _ _ Hc d ρ eq_refl Hρ) as Hall.
  cbn in Hall. by rewrite andb_true_r in Hall.
Qed.

Lemma solve_one_sound_witness :
  ∃ d, stores [∅; {[ "a" := true ]}; {[ "a" := true; "b" := true ]}]
              {| mapping := 2 |} d
       ∧ ∀ ρ, agrees ρ d →
              holds ρ (And (Or (Literal "a" true) (Literal "b" false))
                           (Literal "b" true)) = true.
Proof.
  apply (solve_one_sound 5
           (And (Or (Literal "a" true) (Literal "b" false)) (Literal "b" true))
           []).
  vm_compute. reflexivity.
Defined.

(** C6.  The first test of [sat_tests]: on
    And(Or(a, !b), b), with any depth budget above its five nodes,
    [solve_one] returns a store whose bindings are exactly a: True and
    b: True, the left branch of the [Or] being taken; and these bindings
    satisfy the formula. *)
Theorem solve_one_left_bias_example depth h :
  5 < depth →
  ∃ m h',
    solve_one depth
      (And (Or (Literal "a" true) (Literal "b" false)) (Literal "b" true)) h
    = Ret (Some m) h'
    ∧ stores h' m {[ "a" := true; "b" := true ]}
    ∧ ∀ ρ, agrees ρ {[ "a" := true; "b" := true ]} →
           holds ρ (And (Or (Literal "a" true) (Literal "b" false))
                        (Literal "b" true)) = true.
Proof.
  intros Hd. unfold solve_one, bind. rewrite init_None_run.
  destruct (solve_returns depth
              (Cons (And (Or (Literal "a" true) (Literal "b" false))
                         (Literal "b" true)) Nil)
              {| mapping := length h |} (h ++ [∅])) as (r & h' & E);
    [cbn; lia|].
  rewrite E.
  destruct (solve_content _ _ _ _ _ _ _ (stores_alloc h ∅) E) as (_ & c & Hc & Hr).
  assert (Content.solve
            (Cons (And (Or (Literal "a" true) (Literal "b" false))
                       (Literal "b" true)) Nil)
            ∅ (Some {[ "a" := true; "b" := true ]})) as Hleft.
  { apply Content.solve_and, Content.solve_or_left.
    apply (Content.solve_literal _ _ _ _ {[ "a" := true ]}); [reflexivity|].
    apply (Content.solve_literal _ _ _ _ {[ "a" := true; "b" := true ]});
      [by vm_compute|].
    constructor. }
  rewrite (content_solve_functional _ _ _ Hc _ Hleft) in Hr.
  destruct r as [m|]; [|done]. exists m, h'. split_and!; [done..|].
  intros ρ Hρ. cbn. by rewrite (Hρ "a" true), (Hρ "b" true).
Qed.

Lemma solve_one_left_bias_example_witness :
  ∃ m h',
    solve_one 6
      (And (Or (Literal "a" true) (Literal "b" false)) (Literal "b" true)) []
    = Ret (Some m) h'
    ∧ stores h' m {[ "a" := true; "b" := true ]}
    ∧ ∀ ρ, agrees ρ {[ "a" := true; "b" := true ]} →
           holds ρ (And (Or (Literal "a" true) (Literal "b" false))
                        (Literal "b" true)) = true.
Proof. apply (solve_one_left_bias_example 6 []). lia. Defined.

(** *** The measure of the recursion *)

(** C5, refuted as stated.  The literal step does not lower the count of
    And/Or nodes: from the worklist holding the single goal [a], with an
    empty store, [solve] calls itself on the empty worklist, and both
    worklists have no connective at all. *)
Lemma literal_step_keeps_connectives :
  recursive_call (Cons (Literal "a" true) Nil) {| mapping := 0 |} [∅]
                 Nil {| mapping := 1 |} [∅; {[ "a" := true ]}]
  ∧ connectives (Cons (Literal "a" true) Nil) = 0
  ∧ connectives Nil = 0
  ∧ connectives (Cons (Literal "a" true) Nil) ≠ S (connectives Nil).
Proof. split_and!; [by constructor | done..]. Qed.

(** C5, amended.  On every recursive call of [solve] the number of nodes
    of the worklist (literals and connectives together) strictly
    decreases, and the number of And/Or nodes never increases.  A literal
    step removes one node and no connective; a conjunction step removes
    one node, the [And]; a disjunction step removes the [Or] together
    with the operand that is not tried, so at least one connective. *)
Theorem recursive_call_decreases goals literals h goals' literals' h' :
  recursive_call goals literals h goals' literals' h' →
  nodes goals' < nodes goals
  ∧ connectives goals' ≤ connectives goals
  ∧ (∀ x b t, goals = Cons (Literal x b) t →
       nodes goals = S (nodes goals')
       ∧ connectives goals = connectives goals')
  ∧ (∀ l r t, goals = Cons (And l r) t →
       nodes goals = S (nodes goals')
       ∧ connectives goals = S (connectives goals'))
  ∧ (∀ l r t, goals = Cons (Or l r) t →
       (goals' = Cons l t
        ∧ nodes goals = S (size r) + nodes goals'
        ∧ connectives goals = S (connectives_of r) + connectives goals')
       ∨ (goals' = Cons r t
          ∧ nodes goals = S (size l) + nodes goals'
          ∧ connectives goals = S (connectives_of l) + connectives goals')).
Proof.
  destruct 1; cbn; (split_and!; [lia | lia | ..]);
    intros ? ? ? ?; simplify_eq; cbn;
    first [lia | left; split_and!; [done | lia..]
               | right; split_and!; [done | lia..]].
Qed.

Lemma recursive_call_decreases_witness :
  nodes Nil < nodes (Cons (Literal "a" true) Nil)
  ∧ connectives Nil ≤ connectives (Cons (Literal "a" true) Nil)
  ∧ (∀ x b t, Cons (Literal "a" true) Nil = Cons (Literal x b) t →
       nodes (Cons (Literal "a" true) Nil) = S (nodes Nil)
       ∧ connectives (Cons (Literal "a" true) Nil) = connectives Nil)
  ∧ (∀ l r t, Cons (Literal "a" true) Nil = Cons (And l r) t →
       nodes (Cons (Literal "a" true) Nil) = S (nodes Nil)
       ∧ connectives (Cons (Literal "a" true) Nil) = S (connectives Nil))
  ∧ (∀ l r t, Cons (Literal "a" true) Nil = Cons (Or l r) t →
       (Nil = Cons l t
        ∧ nodes (Cons (Literal "a" true) Nil) = S (size r) + nodes Nil
        ∧ connectives (Cons (Literal "a" true) Nil)
          = S (connectives_of r) + connectives Nil)
       ∨ (Nil = Cons r t
          ∧ nodes (Cons (Literal "a" true) Nil) = S (size l) + nodes Nil
          ∧ connectives (Cons (Literal "a" true) Nil)
            = S (connectives_of l) + connectives Nil)).
Proof.
  apply (recursive_call_decreases (Cons (Literal "a" true) Nil)
           {| mapping := 0 |} [∅] Nil {| mapping := 1 |} [∅; {[ "a" := true ]}]).
  by constructor.
Defined.

(** *** The module's tests, run from an empty heap *)

(** What [run_tests] prints for [sat_tests], and that [unsat_tests] come
    out as [None]. *)
Example sat_tests_run :
  (λ e, match solve_one 1000 e [] with
        | Ret (Some m) h => h !! mapping m
        | _ => None
        end) <$> sat_tests
  = [ Some {[ "a" := true; "b" := true ]};
      Some {[ "x" := true; "y" := false ]} ].
Proof. by vm_compute. Qed.

Example unsat_tests_run :
  Forall (λ e, ∃ h, solve_one 1000 e [] = Ret None h) unsat_tests.
Proof. repeat constructor. by eexists. Qed.

(** Or(And(!x, y), And(x, y)): the left branch succeeds first. *)
Example left_branch_first :
  ∃ m h,
    solve_one 1000 (Or (And (Literal "x" false) (Literal "y" true))
                       (And (Literal "x" true) (Literal "y" true))) []
    = Ret (Some m) h
    ∧ stores h m {[ "x" := false; "y" := true ]}.
Proof. eexists _, _. split; by vm_compute. Qed.

(** *** Completeness, and what the returned store is made of *)

Lemma agrees_valuation_of d : agrees (valuation_of d) d.
Proof. intros x v Hx. unfold valuation_of. by rewrite Hx. Qed.

Lemma agrees_weaken ρ d d' : d ⊆ d' → agrees ρ d' → agrees ρ d.
Proof. intros Hsub Hρ x v Hx. apply Hρ. by eapply lookup_weaken. Qed.

Lemma agrees_add_literal ρ d x b d1 :
  agrees ρ d → ρ x = b → Content.add_literal d x b = Some d1 → agrees ρ d1.
Proof.
  intros Hρ Hx. unfold Content.add_literal.
  destruct (d !! x) as [v|] eqn:Hv.
  - destruct (Bool.eqb v b); [|done]. by intros [= <-].
  - intros [= <-] y w [[<- <-]|[_ Hy]]%lookup_insert_Some; [done | by apply Hρ].
Qed.

Lemma content_solve_total goals d : ∃ c, Content.solve goals d c.
Proof.
  destruct (solve_returns (S (nodes goals)) goals {| mapping := 0 |} [d])
    as (r & h' & E); [lia|].
  assert (stores [d] {| mapping := 0 |} d) as Hm by reflexivity.
  destruct (solve_content _ _ _ _ d _ _ Hm E) as (_ & c & Hc & _). eauto.
Qed.

(** A failed search leaves no valuation that agrees with the store and
    makes every goal true. *)
Lemma content_solve_complete goals d res :
  Content.solve goals d res →
  res = None → ∀ ρ, agrees ρ d → all_hold ρ goals = false.
Proof.
  induction 1 as [d|x b t d Hc|x b t d d1 res Ha _ IH|l r t d res _ IH
                 |l r t d d1 _ IH|l r t d res _ IHl _ IHr]; intros Hres ρ Hρ.
  - done.
  - apply content_add_literal_None in Hc. cbn.
    rewrite (Hρ _ _ Hc). by destruct b.
  - cbn. destruct (Bool.eqb (ρ x) b) eqn:Hx; [|done]. cbn.
    apply Bool.eqb_prop in Hx. by eapply IH, agrees_add_literal.
  - specialize (IH Hres ρ Hρ). cbn in *. by rewrite <- andb_assoc.
  - done.
  - specialize (IHl eq_refl ρ Hρ). specialize (IHr Hres ρ Hρ). cbn in *.
    destruct (holds ρ l), (holds ρ r); cbn in *; done.
Qed.

(** A search that fails keeps failing from any larger store. *)
Lemma content_solve_None_mono goals d d' :
  Content.solve goals d None → d ⊆ d' → Content.solve goals d' None.
Proof.
  intros Hn Hsub. destruct (content_solve_total goals d') as [[d''|] Hc]; [|done].
  destruct (content_solve_extends _ _ _ Hc _ eq_refl) as [Hsub' _].
  pose proof (content_solve_sound _ _ _ Hc _ _ eq_refl (agrees_valuation_of d'')) as Ht.
  rewrite (content_solve_complete _ _ _ Hn eq_refl (valuation_of d'')) in Ht; [done|].
  eapply agrees_weaken; [|apply agrees_valuation_of]. by etrans.
Qed.

(** Started again from the store it returned, the search returns it. *)
Lemma content_solve_fixed goals d res :
  Content.solve goals d res →
  ∀ d', res = Some d' → Content.solve goals d' (Some d').
Proof.
  induction 1 as [d|x b t d Hc|x b t d d1 res Ha Hs IH|l r t d res _ IH
                 |l r t d d1 _ IH|l r t d res Hl _ Hr IH]; intros d' Hres.
  - injection Hres as <-. constructor.
  - done.
  - apply (Content.solve_literal _ _ _ _ d'); [|by apply IH].
    apply content_add_literal_Some in Ha as (_ & Hx & _).
    destruct (content_solve_extends _ _ _ Hs _ Hres) as [Hsub _].
    unfold Content.add_literal. rewrite (lookup_weaken _ _ _ _ Hx Hsub).
    by rewrite Bool.eqb_reflx.
  - constructor. by apply IH.
  - constructor. by apply IH.
  - apply Content.solve_or_right; [|by apply IH].
    apply (content_solve_None_mono _ d); [done|].
    by destruct (content_solve_extends _ _ _ Hr _ Hres).
Qed.

(** Every binding of the store returned was there before or is a literal
    of the worklist, polarity included. *)
Lemma content_solve_lits goals d res :
  Content.solve goals d res →
  ∀ d', res = Some d' →
  ∀ x v, d' !! x = Some v → d !! x = Some v ∨ (x, v) ∈ goal_lits goals.
Proof.
  induction 1 as [d|x b t d Hc|x b t d d1 res Ha _ IH|l r t d res _ IH
                 |l r t d d1 _ IH|l r t d res _ _ _ IH]; intros d' Hres y v Hy.
  - injection Hres as <-. by left.
  - done.
  - destruct (IH _ Hres _ _ Hy) as [Hy1|Hy1]; [|right; cbn; set_solver].
    revert Ha. unfold Content.add_literal.
    destruct (d !! x) as [w|] eqn:Hw.
    + destruct (Bool.eqb w b); [|done]. intros [= <-]. by left.
    + intros [= <-].
      apply lookup_insert_Some in Hy1 as [[<- <-]|[_ Hy1]];
        [right; cbn; set_solver | by left].
  - destruct (IH _ Hres _ _ Hy) as [?|?]; [by left | right; cbn in *; set_solver].
  - destruct (IH _ Hres _ _ Hy) as [?|?]; [by left | right; cbn in *; set_solver].
  - destruct (IH _ Hres _ _ Hy) as [?|?]; [by left | right; cbn in *; set_solver].
Qed.

(** Returning runs of [solve] from stores with the same bindings, on any
    two heaps and with any two budgets, return the same bindings. *)
Lemma solve_same_contents n1 n2 goals m1 h1 m2 h2 d r1 h1' r2 h2' :
  stores h1 m1 d → stores h2 m2 d →
  solve n1 goals m1 h1 = Ret r1 h1' →
  solve n2 goals m2 h2 = Ret r2 h2' →
  ∃ c, stores_result h1' r1 c ∧ stores_result h2' r2 c.
Proof.
  intros Hm1 Hm2 E1 E2.
  destruct (solve_content _ _ _ _ _ _ _ Hm1 E1) as (_ & c1 & Hc1 & Hr1).
  destruct (solve_content _ _ _ _ _ _ _ Hm2 E2) as (_ & c2 & Hc2 & Hr2).
  rewrite <- (content_solve_functional _ _ _ Hc1 _ Hc2) in Hr2. eauto.
Qed.

Lemma stores_result_prefix h h' r c :
  stores_result h r c → h `prefix_of` h' → stores_result h' r c.
Proof. destruct r, c; cbn; try done. apply stores_prefix. Qed.

(** From a store whose bindings the search maps to themselves, a
    returning run hands back that very store. *)
Lemma solve_fixed_object n : ∀ goals m h d r h',
  stores h m d → Content.solve goals d (Some d) →
  solve n goals m h = Ret r h' → r = Some m.
Proof.
  induction n as [|n IH]; intros goals m h d res h' Hm Hc; [by rewrite solve_0|].
  destruct goals as [|[x b|l r|l r] t].
  - rewrite solve_nil_eq. by intros [= <- _].
  - rewrite solve_literal_eq, (add_literal_run _ _ _ _ _ Hm).
    inversion Hc as [| |? ? ? ? d1 ? Ha Hs| | |]; subst.
    destruct (content_solve_extends _ _ _ Hs _ eq_refl) as [Hsub _].
    revert Ha. unfold Content.add_literal.
    destruct (d !! x) as [v|] eqn:Hv.
    + destruct (Bool.eqb v b); [|done]. intros [= <-]. by apply (IH _ _ _ d).
    + intros [= <-]. pose proof (lookup_weaken _ _ x b (lookup_insert_eq _ _ _) Hsub).
      congruence.
  - rewrite solve_and_eq. inversion Hc; subst. by apply (IH _ _ _ d).
  - rewrite solve_or_eq.
    destruct (solve n (Cons l t) m h) as [[left_side|] h1|e h1] eqn:El; [| |done].
    + intros [= <- _].
      destruct (solve_content _ _ _ _ _ _ _ Hm El) as (_ & c & Hcl & Hr).
      inversion Hc as [| | | |? ? ? ? ? Hl|? ? ? ? ? Hl Hrr]; subst.
      * by apply (IH _ _ _ _ _ _ Hm Hl) in El.
      * by rewrite (content_solve_functional _ _ _ Hcl _ Hl) in Hr.
    + destruct (solve_content _ _ _ _ _ _ _ Hm El) as (Hp & c & Hcl & Hr).
      inversion Hc as [| | | |? ? ? ? ? Hl|? ? ? ? ? Hl Hrr]; subst.
      * by rewrite (content_solve_functional _ _ _ Hcl _ Hl) in Hr.
      * apply (IH _ _ _ d); [by eapply stores_prefix | done].
Qed.

(** *** Further properties of the solver *)

(** X1.  Completeness of [solve]: when it returns [None] from a store
    holding the bindings [d], no valuation that agrees with [d] makes
    every goal of the worklist true. *)
Theorem solve_None_unsatisfiable depth goals m h d h' ρ :
  stores h m d →
  solve depth goals m h = Ret None h' →
  agrees ρ d →
  all_hold ρ goals = false.
Proof.
  intros Hm Hs Hρ.
  destruct (solve_content _ _ _ _ _ _ _ Hm Hs) as (_ & [?|] & Hc & Hr); [done|].
  by eapply content_solve_complete.
Qed.

Lemma solve_None_unsatisfiable_witness :
  all_hold (valuation_of {[ "x" := true ]})
           (Cons (Or (Literal "x" false) (Literal "x" false)) Nil) = false.
Proof.
  apply (solve_None_unsatisfiable 3 _ {| mapping := 0 |}
           [{[ "x" := true ]}] {[ "x" := true ]} [{[ "x" := true ]}]).
  - reflexivity.
  - reflexivity.
  - apply agrees_valuation_of.
Defined.

Lemma solve_one_verdict depth formula h :
  size formula < depth →
  ((∃ m h', solve_one depth formula h = Ret (Some m) h')
   ↔ ∃ ρ, holds ρ formula = true)
  ∧ ((∃ h', solve_one depth formula h = Ret None h')
     ↔ ∀ ρ, holds ρ formula = false).
Proof.
  intros Hd. unfold solve_one, bind. rewrite init_None_run.
  pose proof (stores_alloc h ∅) as Hm.
  destruct (solve_returns depth (Cons formula Nil) {| mapping := length h |}
              (h ++ [∅])) as (r & h' & E); [cbn; lia|].
  rewrite E.
  destruct (solve_content _ _ _ _ _ _ _ Hm E) as (_ & c & Hc & Hr).
  assert (Hall : ∀ ρ, all_hold ρ (Cons formula Nil) = holds ρ formula)
    by (intros; cbn; apply andb_true_r).
  destruct r as [m|], c as [d|]; try done.
  - pose proof (content_solve_sound _ _ _ Hc _ _ eq_refl (agrees_valuation_of d))
      as Ht. rewrite Hall in Ht.
    split; split; [eauto | eauto | by intros [? [=]] | ].
    intros Hf. by rewrite Hf in Ht.
  - assert (Hf : ∀ ρ, holds ρ formula = false).
    { intros ρ. rewrite <- Hall.
      by apply (content_solve_complete _ _ _ Hc eq_refl). }
    split; split; [by intros (? & ? & [=]) | | eauto | eauto].
    intros [ρ Hρ]. by rewrite Hf in Hρ.
Qed.

(** X2.  [solve_one] decides satisfiability: with a depth budget above
    the size of the formula it returns a store exactly when some
    valuation makes the formula true, and [None] exactly when none
    does. *)
Theorem solve_one_decides depth formula h :
  size formula < depth →
  ((∃ m h', solve_one depth formula h = Ret (Some m) h')
   ↔ ∃ ρ, holds ρ formula = true)
  ∧ ((∃ h', solve_one depth formula h = Ret None h')
     ↔ ∀ ρ, holds ρ formula = false).
Proof. apply solve_one_verdict. Qed.

Lemma solve_one_decides_witness :
  ((∃ m h', solve_one 4 (And (Literal "x" true) (Literal "x" false)) []
            = Ret (Some m) h')
   ↔ ∃ ρ, holds ρ (And (Literal "x" true) (Literal "x" false)) = true)
  ∧ ((∃ h', solve_one 4 (And (Literal "x" true) (Literal "x" false)) []
            = Ret None h')
     ↔ ∀ ρ, holds ρ (And (Literal "x" true) (Literal "x" false)) = false).
Proof.
  apply (solve_one_decides 4 (And (Literal "x" true) (Literal "x" false)) []).
  cbn. lia.
Defined.

(** X3.  Solving the same formula twice, the second time on the heap the
    first call left: both calls return the same bindings (or both
    [None]), and the store returned first is untouched by the second
    call. *)
Theorem solve_one_repeatable depth1 depth2 formula h r1 h1 r2 h2 :
  solve_one depth1 formula h = Ret r1 h1 →
  solve_one depth2 formula h1 = Ret r2 h2 →
  ∃ c, stores_result h1 r1 c ∧ stores_result h2 r1 c ∧ stores_result h2 r2 c.
Proof.
  unfold solve_one, bind. rewrite !init_None_run. intros E1 E2.
  destruct (solve_same_contents _ _ _ _ _ _ _ _ _ _ _ _
              (stores_alloc h ∅) (stores_alloc h1 ∅) E1 E2) as (c & Hr1 & Hr2).
  exists c. split_and!; [done| |done].
  destruct (solve_content _ _ _ _ _ _ _ (stores_alloc h1 ∅) E2) as (Hp & _).
  eapply stores_result_prefix; [done|]. by eapply prefix_app_l.
Qed.

Lemma solve_one_repeatable_witness :
  ∃ c, stores_result [∅; {[ "x" := true ]}] (Some {| mapping := 1 |}) c
       ∧ stores_result [∅; {[ "x" := true ]}; ∅; {[ "x" := true ]}]
                       (Some {| mapping := 1 |}) c
       ∧ stores_result [∅; {[ "x" := true ]}; ∅; {[ "x" := true ]}]
                       (Some {| mapping := 3 |}) c.
Proof.
  apply (solve_one_repeatable 2 7 (Literal "x" true) []); by vm_compute.
Defined.

(** X4.  Where the bindings come from: every binding of the store that
    [solve] returns was in the store passed in, or is a literal of the
    worklist with that very polarity. *)
Theorem solve_binds_literals depth goals m h d m' h' :
  stores h m d →
  solve depth goals m h = Ret (Some m') h' →
  ∃ d', stores h' m' d'
        ∧ ∀ x v, d' !! x = Some v → d !! x = Some v ∨ (x, v) ∈ goal_lits goals.
Proof.
  intros Hm Hs.
  destruct (solve_content _ _ _ _ _ _ _ Hm Hs) as (_ & [d'|] & Hc & Hr); [|done].
  exists d'. split; [done|]. by eapply content_solve_lits.
Qed.

Lemma solve_binds_literals_witness :
  ∃ d', stores [∅; {[ "y" := false ]}] {| mapping := 1 |} d'
        ∧ ∀ x v, d' !! x = Some v →
                 (∅ : gmap string bool) !! x = Some v
                 ∨ (x, v) ∈ goal_lits
                      (Cons (Or (Literal "y" false) (Literal "y" true)) Nil).
Proof.
  apply (solve_binds_literals 3 _ {| mapping := 0 |} [∅] ∅); by vm_compute.
Defined.

(** X5.  The store returned is a fixed point: called again on the same
    worklist with the store it returned, on any later heap and with
    enough depth, [solve] returns that very store object. *)
Theorem solve_result_fixed_point depth goals m h d m' h' depth' h0 :
  stores h m d →
  solve depth goals m h = Ret (Some m') h' →
  h' `prefix_of` h0 →
  nodes goals < depth' →
  ∃ h'', solve depth' goals m' h0 = Ret (Some m') h''.
Proof.
  intros Hm Hs Hp Hd.
  destruct (solve_content _ _ _ _ _ _ _ Hm Hs) as (_ & [d'|] & Hc & Hr); [|done].
  destruct (solve_returns depth' goals m' h0 Hd) as (r & h'' & E).
  exists h''. rewrite E. f_equal.
  apply (solve_fixed_object _ _ _ _ d' _ _ (stores_prefix _ _ _ _ Hr Hp)) in E;
    [done|].
  by eapply content_solve_fixed.
Qed.

Lemma solve_result_fixed_point_witness :
  ∃ h'', solve 4 (Cons (Or (Literal "y" false) (Literal "y" true)) Nil)
               {| mapping := 1 |} [∅; {[ "y" := false ]}]
         = Ret (Some {| mapping := 1 |}) h''.
Proof.
  apply (solve_result_fixed_point 4 _ {| mapping := 0 |} [∅] ∅ _
           [∅; {[ "y" := false ]}]).
  - reflexivity.
  - by vm_compute.
  - reflexivity.
  - cbn. lia.
Defined.

(** X6.  The nesting depth of a successful run on a worklist without
    [Or] is exactly its number of nodes plus one: it needs a budget
    above the node count, and with any smaller budget the call ends in
    [RecursionError]. *)
Theorem solve_or_free_depth depth goals m h m' h' :
  goals_or_free goals = true →
  solve depth goals m h = Ret (Some m') h' →
  nodes goals < depth
  ∧ ∀ n, n ≤ nodes goals → ∃ h'', solve n goals m h = Raise RecursionError h''.
Proof.
  intros Hof Hs.
  assert (Hraise : ∀ n k goals m h m' h',
    goals_or_free goals = true → solve k goals m h = Ret (Some m') h' →
    n ≤ nodes goals → ∃ h'', solve n goals m h = Raise RecursionError h'').
  { clear. induction n as [|n IH]; intros k goals m h m' h' Hof Hs Hn;
      [by eexists|].
    destruct k as [|k]; [by rewrite solve_0 in Hs|].
    destruct goals as [|[x b|l r|l r] t]; cbn in Hof, Hn; [lia| | |done].
    - rewrite solve_literal_eq in *.
      destruct (add_literal m x b h) as [[result|] h1|e h1]; [|done..].
      apply (IH _ _ _ _ _ _ Hof Hs). lia.
    - rewrite solve_and_eq in *.
      apply (IH _ _ _ _ _ _) in Hs; [done| |cbn; lia].
      cbn. apply andb_true_iff in Hof as [[-> ->]%andb_true_iff ->]. done. }
  split.
  - destruct (decide (nodes goals < depth)) as [|Hge]; [done|].
    destruct (Hraise depth _ _ _ _ _ _ Hof Hs) as [h'' E]; [lia|]. congruence.
  - intros n Hn. by eapply Hraise.
Qed.

Lemma solve_or_free_depth_witness :
  nodes (Cons (And (Literal "x" true) (Literal "y" true)) Nil) < 9
  ∧ ∀ n, n ≤ nodes (Cons (And (Literal "x" true) (Literal "y" true)) Nil) →
         ∃ h'', solve n (Cons (And (Literal "x" true) (Literal "y" true)) Nil)
                      {| mapping := 0 |} [∅]
                = Raise RecursionError h''.
Proof.
  apply (solve_or_free_depth 9 _ {| mapping := 0 |} [∅]
           {| mapping := 2 |} [∅; {[ "x" := true ]}; {[ "x" := true; "y" := true ]}]).
  - reflexivity.
  - by vm_compute.
Defined.

(** *** Further properties of ImmutableMap *)

Lemma get_run h m d key :
  stores h m d →
  ImmutableMap.get m key h
  = match d !! key with
    | Some v => Ret v h
    | None => Raise (KeyError key) h
    end.
Proof.
  intros Hm. unfold ImmutableMap.get, dict_getitem.
  by rewrite (stores_total _ _ _ Hm).
Qed.

Lemma contains_run h m d key :
  stores h m d →
  ImmutableMap.contains m key h = Ret (bool_decide (is_Some (d !! key))) h.
Proof.
  intros Hm. unfold ImmutableMap.contains, dict_contains.
  by rewrite (stores_total _ _ _ Hm).
Qed.

(** X7.  [add] then [get]: the store that [add] returns answers [value]
    for [key], also when [key] was already bound to something else (the
    raw [add] overwrites in its copy), and answers every other key as the
    original store does; the original store answers every key, [key]
    included, as it did before the call. *)
Theorem add_get_round_trip h m d key value :
  stores h m d →
  ∃ m' h',
    ImmutableMap.add m key value h = Ret m' h'
    ∧ ImmutableMap.get m' key h' = Ret value h'
    ∧ ImmutableMap.contains m' key h' = Ret true h'
    ∧ (∀ k, k ≠ key →
         ImmutableMap.get m' k h' = ImmutableMap.get m k h'
         ∧ ImmutableMap.contains m' k h' = ImmutableMap.contains m k h')
    ∧ (∀ k,
         answer (ImmutableMap.get m k h') = answer (ImmutableMap.get m k h)
         ∧ answer (ImmutableMap.contains m k h')
           = answer (ImmutableMap.contains m k h)).
Proof.
  intros Hm. rewrite (add_run _ _ _ _ _ Hm). eexists _, _. split; [done|].
  pose proof (stores_alloc h (<[key := value]> d)) as Hm'.
  assert (stores (h ++ [<[key := value]> d]) m d) as Hm0
    by (eapply stores_prefix; [done | by apply prefix_app_r]).
  split_and!.
  - by rewrite (get_run _ _ _ _ Hm'), lookup_insert_eq.
  - rewrite (contains_run _ _ _ _ Hm'), lookup_insert_eq.
    by rewrite bool_decide_eq_true_2.
  - intros k Hk.
    rewrite (get_run _ _ _ _ Hm'), (get_run _ _ _ _ Hm0).
    rewrite (contains_run _ _ _ _ Hm'), (contains_run _ _ _ _ Hm0).
    by rewrite lookup_insert_ne.
  - intros k.
    rewrite (get_run _ _ _ _ Hm0), (get_run _ _ _ _ Hm).
    rewrite (contains_run _ _ _ _ Hm0), (contains_run _ _ _ _ Hm).
    by destruct (d !! k).
Qed.

Lemma add_get_round_trip_witness :
  ∃ m' h',
    ImmutableMap.add {| mapping := 0 |} "x" false [{[ "x" := true ]}]
      = Ret m' h'
    ∧ ImmutableMap.get m' "x" h' = Ret false h'
    ∧ ImmutableMap.contains m' "x" h' = Ret true h'
    ∧ (∀ k, k ≠ "x" →
         ImmutableMap.get m' k h' = ImmutableMap.get {| mapping := 0 |} k h'
         ∧ ImmutableMap.contains m' k h'
           = ImmutableMap.contains {| mapping := 0 |} k h')
    ∧ (∀ k,
         answer (ImmutableMap.get {| mapping := 0 |} k h')
         = answer (ImmutableMap.get {| mapping := 0 |} k [{[ "x" := true ]}])
         ∧ answer (ImmutableMap.contains {| mapping := 0 |} k h')
           = answer (ImmutableMap.contains {| mapping := 0 |} k
                       [{[ "x" := true ]}])).
Proof.
  apply (add_get_round_trip [{[ "x" := true ]}] {| mapping := 0 |}
           {[ "x" := true ]} "x" false).
  reflexivity.
Defined.

(** X8.  [ImmutableMap()] with no argument: the store it makes is empty
    ([contains] answers [False] and [get] raises [KeyError] for every
    key), no dict that existed before is touched, a second call makes a
    store on another dict, and [add_literal] on the fresh store always
    succeeds with a store that binds just that one variable. *)
Theorem fresh_map_is_empty h :
  ∃ m h',
    ImmutableMap.init None h = Ret m h'
    ∧ stores h' m ∅
    ∧ h `prefix_of` h'
    ∧ (∀ key, ImmutableMap.contains m key h' = Ret false h'
              ∧ ImmutableMap.get m key h' = Raise (KeyError key) h')
    ∧ (∃ m2 h2, ImmutableMap.init None h' = Ret m2 h2
                ∧ mapping m2 ≠ mapping m ∧ stores h2 m ∅ ∧ stores h2 m2 ∅)
    ∧ (∀ x v, ∃ m1 h1, add_literal m x v h' = Ret (Some m1) h1
                       ∧ stores h1 m1 {[ x := v ]} ∧ stores h1 m ∅).
Proof.
  rewrite init_None_run. eexists _, _. split; [done|].
  pose proof (stores_alloc h ∅) as Hm.
  split_and!.
  - done.
  - by apply prefix_app_r.
  - intros key. by rewrite (contains_run _ _ _ _ Hm), (get_run _ _ _ _ Hm).
  - rewrite init_None_run. eexists _, _. split; [done|]. split_and!.
    + cbn. rewrite length_app. cbn. lia.
    + eapply stores_prefix; [done | by apply prefix_app_r].
    + apply stores_alloc.
  - intros x v. rewrite (add_literal_run _ _ _ _ _ Hm), lookup_empty.
    eexists _, _. split; [done|]. split.
    + apply stores_alloc.
    + eapply stores_prefix; [done | by apply prefix_app_r].
Qed.

(** *** Rendering is unambiguous for plain variable names *)

Lemma str_app_cons (x : Ascii.ascii) (a b : string) :
  String x a +:+ b = String x (a +:+ b).
Proof. reflexivity. Qed.

Lemma str_app_nil (b : string) : "" +:+ b = b.
Proof. reflexivity. Qed.

Lemma str_app_assoc (a b c : string) : (a +:+ b) +:+ c = a +:+ (b +:+ c).
Proof.
  induction a as [|x a IH]; [done|].
  by rewrite !str_app_cons, IH.
Qed.

(** A plain name is cut off from what follows it at a known place. *)
Lemma plain_chars_split x : ∀ y s1 s2,
  plain_chars x = true → plain_chars y = true →
  ends_name s1 = true → ends_name s2 = true →
  x +:+ s1 = y +:+ s2 → x = y ∧ s1 = s2.
Proof.
  induction x as [|c x IH]; intros [|c' y] s1 s2 Hx Hy H1 H2;
    rewrite ?str_app_cons, ?str_app_nil.
  - done.
  - intros ->. cbn in Hy, H1.
    apply andb_true_iff in Hy as [Hc _]. by rewrite Hc in H1.
  - intros <-. cbn in Hx, H2.
    apply andb_true_iff in Hx as [Hc _]. by rewrite Hc in H2.
  - intros [= <- H]. cbn in Hx, Hy.
    apply andb_true_iff in Hx as [_ Hx]. apply andb_true_iff in Hy as [_ Hy].
    by destruct (IH _ _ _ Hx Hy H1 H2 H) as [-> ->].
Qed.

Lemma plain_name_chars x : plain_name x = true → plain_chars x = true.
Proof. by destruct x. Qed.

Lemma plain_name_head x s c s' :
  plain_name x = true → x +:+ s = String c s' → plain_char c = true.
Proof.
  destruct x as [|c0 x]; [done|]. cbn [plain_name plain_chars].
  intros [Hc _]%andb_true_iff. rewrite str_app_cons. by intros [= <- _].
Qed.

Lemma to_string_plain_prefix_free e1 : ∀ e2 s1 s2,
  plain_names e1 = true → plain_names e2 = true →
  ends_name s1 = true → ends_name s2 = true →
  to_string e1 +:+ s1 = to_string e2 +:+ s2 → e1 = e2 ∧ s1 = s2.
Proof.
  induction e1 as [x [|]|l1 IHl r1 IHr|l1 IHl r1 IHr];
    intros [y [|]|l2 r2|l2 r2] s1 s2 Hp1 Hp2 H1 H2;
    cbn [to_string op_string plain_names] in *;
    rewrite ?str_app_assoc, ?str_app_cons, ?str_app_nil;
    try discriminate.
  (* a positive literal against anything *)
  - intros H. apply plain_name_chars in Hp1, Hp2.
    by destruct (plain_chars_split _ _ _ _ Hp1 Hp2 H1 H2 H) as [-> ->].
  - intros H. by apply (plain_name_head _ _ _ _ Hp1) in H.
  - intros H. by apply (plain_name_head _ _ _ _ Hp1) in H.
  - intros H. by apply (plain_name_head _ _ _ _ Hp1) in H.
  (* a negative literal *)
  - intros H. symmetry in H. by apply (plain_name_head _ _ _ _ Hp2) in H.
  - intros [= H]. apply plain_name_chars in Hp1, Hp2.
    by destruct (plain_chars_split _ _ _ _ Hp1 Hp2 H1 H2 H) as [-> ->].
  (* a connective *)
  - intros H. symmetry in H. by apply (plain_name_head _ _ _ _ Hp2) in H.
  - apply andb_true_iff in Hp1 as [Hl1 Hr1]. apply andb_true_iff in Hp2 as [Hl2 Hr2].
    intros [= H]. apply IHl in H as [-> H]; [|done..].
    injection H as H. apply IHr in H as [-> H]; [|done..]. by injection H as ->.
  - apply andb_true_iff in Hp1 as [Hl1 Hr1]. apply andb_true_iff in Hp2 as [Hl2 Hr2].
    intros [= H]. by apply IHl in H as [-> H].
  - intros H. symmetry in H. by apply (plain_name_head _ _ _ _ Hp2) in H.
  - apply andb_true_iff in Hp1 as [Hl1 Hr1]. apply andb_true_iff in Hp2 as [Hl2 Hr2].
    intros [= H]. by apply IHl in H as [-> H].
  - apply andb_true_iff in Hp1 as [Hl1 Hr1]. apply andb_true_iff in Hp2 as [Hl2 Hr2].
    intros [= H]. apply IHl in H as [-> H]; [|done..].
    injection H as H. apply IHr in H as [-> H]; [|done..]. by injection H as ->.
Qed.

(** X13.  Two formulas whose variable names are plain (not empty, no
    blank, parenthesis or [!]) and that render to the same string are the
    same formula.  Without that condition they need not be: a variable
    named [!x] taken positively renders as the negation of [x]. *)
Theorem to_string_plain_injective :
  (∀ e1 e2,
      plain_names e1 = true → plain_names e2 = true →
      to_string e1 = to_string e2 → e1 = e2)
  ∧ (∀ x, to_string (Literal ("!" +:+ x) true) = to_string (Literal x false)
          ∧ Literal ("!" +:+ x) true ≠ Literal x false).
Proof.
  split.
  - intros e1 e2 Hp1 Hp2 H.
    apply (to_string_plain_prefix_free e1 e2 "" ""); [done..|].
    by rewrite H.
  - intros x. split; [done|]. by intros [=].
Qed.

Lemma to_string_plain_injective_witness :
  And (Literal "p" true) (Literal "q" false)
  = And (Literal "p" true) (Literal "q" false).
Proof.
  apply (proj1 to_string_plain_injective); reflexivity.
Defined.

(** *** How assignments and searches compose *)

(** X14.  Assigning twice: once [add_literal] has returned a store for
    [(x, v)], assigning [(x, v)] to that store again returns the same
    store object and allocates nothing, and assigning the opposite value
    to it is a conflict. *)
Theorem add_literal_again h m d x v m1 h1 :
  stores h m d →
  add_literal m x v h = Ret (Some m1) h1 →
  add_literal m1 x v h1 = Ret (Some m1) h1
  ∧ add_literal m1 x (negb v) h1 = Ret None h1.
Proof.
  intros Hm Ha.
  destruct (add_literal_content _ _ _ _ _ _ _ Hm Ha) as [_ Hr].
  destruct (Content.add_literal d x v) as [d1|] eqn:Hc; [|done].
  apply content_add_literal_Some in Hc as (_ & Hx & _). cbn in Hr.
  rewrite !(add_literal_run _ _ _ _ _ Hr), Hx.
  by destruct v.
Qed.

Lemma add_literal_again_witness :
  add_literal {| mapping := 1 |} "x" true [∅; {[ "x" := true ]}]
  = Ret (Some {| mapping := 1 |}) [∅; {[ "x" := true ]}]
  ∧ add_literal {| mapping := 1 |} "x" (negb true) [∅; {[ "x" := true ]}]
    = Ret None [∅; {[ "x" := true ]}].
Proof.
  apply (add_literal_again [∅] {| mapping := 0 |} ∅ "x" true); reflexivity.
Defined.

(** X15.  Assignments to two different variables commute: made in
    either order from stores with the same bindings, both orders succeed
    or both fail, and when they succeed the two final stores hold the
    same bindings. *)
Theorem add_literal_commute h m d x v y w r1 h1 r2 h2 r12 h12 r21 h21 :
  x ≠ y →
  stores h m d →
  add_literal m x v h = Ret (Some r1) h1 →
  add_literal r1 y w h1 = Ret r12 h12 →
  add_literal m y w h = Ret (Some r2) h2 →
  add_literal r2 x v h2 = Ret r21 h21 →
  ∃ c, stores_result h12 r12 c ∧ stores_result h21 r21 c.
Proof.
  intros Hxy Hm Hx Hxy' Hy Hyx.
  destruct (add_literal_content _ _ _ _ _ _ _ Hm Hx) as [_ Hr1].
  destruct (add_literal_content _ _ _ _ _ _ _ Hm Hy) as [_ Hr2].
  destruct (Content.add_literal d x v) as [d1|] eqn:Hc1; [|done].
  destruct (Content.add_literal d y w) as [d2|] eqn:Hc2; [|done].
  cbn in Hr1, Hr2.
  destruct (add_literal_content _ _ _ _ _ _ _ Hr1 Hxy') as [_ Hr12].
  destruct (add_literal_content _ _ _ _ _ _ _ Hr2 Hyx) as [_ Hr21].
  exists (Content.add_literal d1 y w). split; [done|].
  replace (Content.add_literal d1 y w) with (Content.add_literal d2 x v); [done|].
  revert Hc1 Hc2. unfold Content.add_literal.
  destruct (d !! x) as [vx|] eqn:Hdx, (d !! y) as [wy|] eqn:Hdy.
  - destruct (Bool.eqb vx v) eqn:Hv, (Bool.eqb wy w) eqn:Hw; try done.
    intros [= <-] [= <-]. by rewrite Hdx, Hdy, Hv, Hw.
  - destruct (Bool.eqb vx v) eqn:Hv; [|done]. intros [= <-] [= <-].
    by rewrite lookup_insert_ne, Hdx, Hdy, Hv.
  - destruct (Bool.eqb wy w) eqn:Hw; [|done]. intros [= <-] [= <-].
    by rewrite lookup_insert_ne, Hdx, Hdy, Hw.
  - intros [= <-] [= <-].
    rewrite !lookup_insert_ne, Hdx, Hdy by done.
    by rewrite insert_insert_ne.
Qed.

Lemma add_literal_commute_witness :
  ∃ c, stores_result [∅; {[ "x" := true ]}; {[ "x" := true; "y" := false ]}]
                     (Some {| mapping := 2 |}) c
       ∧ stores_result [∅; {[ "y" := false ]}; {[ "x" := true; "y" := false ]}]
                       (Some {| mapping := 2 |}) c.
Proof.
  apply (add_literal_commute [∅] {| mapping := 0 |} ∅ "x" true "y" false
           {| mapping := 1 |} [∅; {[ "x" := true ]}]
           {| mapping := 1 |} [∅; {[ "y" := false ]}]);
    [done | by vm_compute ..].
Defined.

(** X16.  Soundness of [solve] itself, from any store: the store it
    returns makes every goal of the worklist true under every valuation
    that agrees with it, and it still agrees with the store passed in. *)
Theorem solve_sound depth goals m h d m' h' :
  stores h m d →
  solve depth goals m h = Ret (Some m') h' →
  ∃ d', stores h' m' d'
        ∧ ∀ ρ, agrees ρ d' → agrees ρ d ∧ all_hold ρ goals = true.
Proof.
  intros Hm Hs.
  destruct (solve_content _ _ _ _ _ _ _ Hm Hs) as (_ & [d'|] & Hc & Hr); [|done].
  exists d'. split; [done|]. intros ρ Hρ. split.
  - destruct (content_solve_extends _ _ _ Hc _ eq_refl) as [Hsub _].
    by eapply agrees_weaken.
  - by eapply content_solve_sound.
Qed.

Lemma solve_sound_witness :
  ∃ d', stores [{[ "x" := true ]}; {[ "x" := true; "y" := false ]}]
               {| mapping := 1 |} d'
        ∧ ∀ ρ, agrees ρ d' →
               agrees ρ {[ "x" := true ]}
               ∧ all_hold ρ (Cons (Literal "y" false)
                               (Cons (Literal "x" true) Nil)) = true.
Proof.
  apply (solve_sound 3 _ {| mapping := 0 |} [{[ "x" := true ]}]);
    by vm_compute.
Defined.



End sat_solver_facts.
